(** * GeometryGenerator: the mesh container and its narrow-index cache

    A shallow embedding of [Common/GeometryGenerator.h].  The header defines
    the vertex format, the mesh container [MeshData] with its lazily filled
    16-bit index cache ([GetIndices16]), and declares the shape generators,
    [Subdivide] and [MidPoint], whose bodies live in a translation unit that
    is not part of the sources at hand.

    Conventions of the embedding:
    - [std::uint16_t] and [std::uint32_t] are numbers in [N]; the wrap-around
      of [static_cast<uint16>] is written out as a remainder modulo [2^16];
    - [std::vector<T>] is [list T], [operator[]] is stdpp's lookup [!!] and
      the indexed store is stdpp's insert; an access outside the vector is
      undefined behaviour in C++ and is [None] here;
    - a member function that mutates its object takes the object and returns
      the result together with the object after the call. *)

From Stdlib Require Import NArith ZArith Bool Lia.
From Stdlib Require Import Floats.SpecFloat.
From stdpp Require Import base option list numbers.

Module GeometryGenerator.

(** ** Scalar types *)

Abbreviation uint16 := N (only parsing).
Abbreviation uint32 := N (only parsing).

(** A C++ [float] is an IEEE-754 datum; [spec_float] is the Standard
    Library's format-independent description of one.  The code of the
    header performs no arithmetic on floats: vertices are only stored and
    copied. *)
Abbreviation float := spec_float (only parsing).

(** [DirectX::XMFLOAT3] and [DirectX::XMFLOAT2] (DirectXMath): plain
    aggregates of three and two floats. *)
Record XMFLOAT3 : Type := mkXMFLOAT3 { f3x : float; f3y : float; f3z : float }.
Record XMFLOAT2 : Type := mkXMFLOAT2 { f2x : float; f2y : float }.

(** ** [struct Vertex] (lines 28-54) *)
Record Vertex : Type := mkVertex {
  Position : XMFLOAT3;
  Normal : XMFLOAT3;
  TangentU : XMFLOAT3;
  TexC : XMFLOAT2
}.

(** The eleven-float constructor of lines 40-48. *)
Definition Vertex11 (px py pz nx ny nz tx ty tz u v : float) : Vertex :=
  {| Position := mkXMFLOAT3 px py pz;
     Normal := mkXMFLOAT3 nx ny nz;
     TangentU := mkXMFLOAT3 tx ty tz;
     TexC := mkXMFLOAT2 u v |}.

(** ** [struct MeshData] (lines 56-75) *)
Record MeshData : Type := mkMeshData {
  Vertices : list Vertex;
  Indices32 : list uint32;
  mIndices16 : list uint16   (* private: reached only through GetIndices16 *)
}.

Definition set_mIndices16 (c : list uint16) (m : MeshData) : MeshData :=
  {| Vertices := Vertices m; Indices32 := Indices32 m; mIndices16 := c |}.

(** [static_cast<uint16>(w)] for an unsigned [w]: the value modulo [2^16]. *)
Definition static_cast_uint16 (w : uint32) : uint16 := (w mod 2 ^ 16)%N.

(** [std::vector::empty()]. *)
Definition vector_empty {A : Type} (v : list A) : bool :=
  match v with [] => true | _ :: _ => false end.

(** [std::vector<uint16>::resize(n)]: truncate, or pad with
    value-initialised (zero) elements. *)
Definition vector_resize (n : nat) (v : list uint16) : list uint16 :=
  resize n 0%N v.

(** The loop of lines 66-67,
    [for (i; i < Indices32.size(); ++i) mIndices16[i] = static_cast<uint16>(Indices32[i])],
    with [k] iterations left to run from position [i].  Both subscripts are
    unchecked in C++; an out-of-range one yields [None]. *)
Fixpoint narrow_loop (k i : nat) (src : list uint32) (dst : list uint16)
  : option (list uint16) :=
  match k with
  | O => Some dst
  | S k' =>
      w ← src !! i;
      _ ← dst !! i;
      narrow_loop k' (S i) src (<[i := static_cast_uint16 w]> dst)
  end.

(** The guarded block of lines 63-68, as a transformer of the object. *)
Definition fill_cache (m : MeshData) : option MeshData :=
  let c0 := vector_resize (length (Indices32 m)) (mIndices16 m) in
  c ← narrow_loop (length (Indices32 m)) 0 (Indices32 m) c0;
  Some (set_mIndices16 c m).

(** [MeshData::GetIndices16] (lines 61-71).  The C++ function returns a
    reference to the cache; the result here is the cache's content at the
    return, paired with the object after the call. *)
Definition GetIndices16 (m : MeshData) : option (list uint16 * MeshData) :=
  m' ← (if vector_empty (mIndices16 m) then fill_cache m else Some m);
  Some (mIndices16 m', m').

(** ** Client code around the container

    [Vertices] and [Indices32] are public data members: between two calls
    of [GetIndices16] the owner of a mesh may assign either of them.  A
    usage of a mesh is a list of such steps. *)
Inductive MeshOp : Type :=
| AssignVertices (vs : list Vertex)
| AssignIndices32 (l : list uint32)
| CallGetIndices16.

Definition set_Vertices (vs : list Vertex) (m : MeshData) : MeshData :=
  {| Vertices := vs; Indices32 := Indices32 m; mIndices16 := mIndices16 m |}.

Definition set_Indices32 (l : list uint32) (m : MeshData) : MeshData :=
  {| Vertices := Vertices m; Indices32 := l; mIndices16 := mIndices16 m |}.

(** What one call did: whether the guard of line 63 held, so that the
    block of lines 64-68 ran, and the sequence the call returned. *)
Record CallEvent : Type := mkCallEvent {
  computed : bool;
  returned : list uint16
}.

(** Runs a usage from a mesh; the events of the calls come in call order. *)
Fixpoint run (ops : list MeshOp) (m : MeshData)
  : option (list CallEvent * MeshData) :=
  match ops with
  | [] => Some ([], m)
  | AssignVertices vs :: ops' => run ops' (set_Vertices vs m)
  | AssignIndices32 l :: ops' => run ops' (set_Indices32 l m)
  | CallGetIndices16 :: ops' =>
      '(r, m1) ← GetIndices16 m;
      '(evs, m2) ← run ops' m1;
      Some (mkCallEvent (vector_empty (mIndices16 m)) r :: evs, m2)
  end.

Definition is_call (op : MeshOp) : bool :=
  match op with CallGetIndices16 => true | _ => false end.

(** How many steps of a usage are calls. *)
Definition call_count (ops : list MeshOp) : nat :=
  length (filter (λ op, is_call op = true) ops).

(** How many calls of a usage ran the narrowing block. *)
Definition compute_count (evs : list CallEvent) : nat :=
  length (filter (λ ev, computed ev = true) evs).

(** [Vertices.size()], as a number. *)
Definition vertex_count (m : MeshData) : N := N.of_nat (length (Vertices m)).

(** ** The invariants of a mesh container

    The index list describes whole triangles and every index addresses a
    vertex. *)
Definition valid_mesh (m : MeshData) : Prop :=
  length (Indices32 m) `mod` 3 = 0 ∧
  Forall (λ w, (w < vertex_count m)%N) (Indices32 m).

#[global] Instance valid_mesh_dec (m : MeshData) : Decision (valid_mesh m).
Proof. unfold valid_mesh. apply _. Defined.

(** ** Uniform subdivision

    [Subdivide] and [MidPoint] are declared at lines 147 and 150; their
    bodies are not in the header.  [MidPoint] is taken as a parameter: the
    subdivision only calls it.  The subdivision itself follows the design
    description of the subdivision engine. *)

Definition Triangle : Type := Vertex * Vertex * Vertex.

(** The number of whole triangles the index list describes. *)
Definition triangle_count (m : MeshData) : nat := length (Indices32 m) / 3.

(** The [t]-th triangle of a mesh: its three consecutive indices, each
    resolved in the vertex list ([None] when a subscript is out of range). *)
Definition triangle_at (m : MeshData) (t : nat) : option Triangle :=
  i0 ← Indices32 m !! (3 * t);
  i1 ← Indices32 m !! (3 * t + 1);
  i2 ← Indices32 m !! (3 * t + 2);
  v0 ← Vertices m !! N.to_nat i0;
  v1 ← Vertices m !! N.to_nat i1;
  v2 ← Vertices m !! N.to_nat i2;
  Some (v0, v1, v2).

Section Subdivision.

Variable MidPoint : Vertex → Vertex → Vertex.

(** Modelled from the spec: the vertices one triangle contributes to the
    refined mesh, its corners and then the three edge midpoints
    m0 = mid(v0,v1), m1 = mid(v1,v2), m2 = mid(v2,v0). *)
Definition refined_vertices (tri : Triangle) : list Vertex :=
  let '(v0, v1, v2) := tri in
  [v0; v1; v2; MidPoint v0 v1; MidPoint v1 v2; MidPoint v2 v0].

(** Modelled from the spec: the four triangles (v0,m0,m2), (m0,v1,m1),
    (m2,m1,v2), (m0,m1,m2) over six vertices stored from offset [b] on. *)
Definition refined_indices (b : uint32) : list uint32 :=
  [b; b + 3; b + 5;
   b + 3; b + 1; b + 4;
   b + 5; b + 4; b + 2;
   b + 3; b + 4; b + 5]%N.

(** Modelled from the spec: one triangle of the input refined onto the end
    of the output.  No midpoint is shared with another triangle. *)
Definition subdivide_triangle (input : MeshData) (t : nat) (out : MeshData)
  : option MeshData :=
  tri ← triangle_at input t;
  Some {| Vertices := Vertices out ++ refined_vertices tri;
          Indices32 := Indices32 out ++ refined_indices (vertex_count out);
          mIndices16 := mIndices16 out |}.

(** Modelled from the spec: the pass over the triangles of the input, [k]
    of them left, from triangle [t] on. *)
Fixpoint subdivide_loop (k t : nat) (input out : MeshData) : option MeshData :=
  match k with
  | O => Some out
  | S k' =>
      out' ← subdivide_triangle input t out;
      subdivide_loop k' (S t) input out'
  end.

(** Modelled from the spec: the body of [GeometryGenerator::Subdivide] is
    missing from the sources (only its declaration at line 147 is there).
    Following section 4.9 of the design: for every triangle (v0,v1,v2) of
    the input, in order, the three edge midpoints are computed with
    [MidPoint] and the triangle is replaced by (v0,m0,m2), (m0,v1,m1),
    (m2,m1,v2), (m0,m1,m2); every triangle is subdivided on its own.  The
    design speaks of indices as vertex offsets, and so does this model: the
    width of the stored index plays no part.  The narrow-index cache is not
    mentioned by the design and is left as it is. *)
Definition Subdivide (m : MeshData) : option MeshData :=
  subdivide_loop (triangle_count m) 0 m
    {| Vertices := []; Indices32 := []; mIndices16 := mIndices16 m |}.

End Subdivision.

(** ** Sample meshes, for evaluating the definitions *)

Definition origin_vertex : Vertex :=
  let z := S754_zero false in Vertex11 z z z z z z z z z z z.

(** A default-constructed [MeshData]: three empty vectors. *)
Definition empty_mesh : MeshData :=
  {| Vertices := []; Indices32 := []; mIndices16 := [] |}.

(** Four vertices and two triangles, the shape of a quad. *)
Definition quad_mesh : MeshData :=
  {| Vertices := replicate 4 origin_vertex;
     Indices32 := [0; 1; 2; 0; 2; 3]%N;
     mIndices16 := [] |}.

(** One triangle over three vertices of its own; 1.0f is the significand
    [2^23] at exponent [-23]. *)
Definition triangle_mesh : MeshData :=
  let z := S754_zero false in
  let one := S754_finite false 8388608 (-23) in
  {| Vertices := [Vertex11 z z z z z one one z z z z;
                  Vertex11 one z z z z one one z z one z;
                  Vertex11 z one z z z one one z z z one];
     Indices32 := [0; 1; 2]%N;
     mIndices16 := [] |}.

(** A mesh whose indices reach past the 16-bit range. *)
Definition wide_mesh : MeshData :=
  {| Vertices := replicate (N.to_nat 70001) origin_vertex;
     Indices32 := [65536; 70000; 7]%N;
     mIndices16 := [] |}.

(** * Properties of [GetIndices16] *)

Section NarrowIndexCache.

Implicit Types (m : MeshData) (src : list uint32) (dst r : list uint16).

Lemma static_cast_uint16_range (w : uint32) :
  (static_cast_uint16 w < 2 ^ 16)%N.
Proof. unfold static_cast_uint16. apply N.mod_upper_bound. discriminate. Qed.

Lemma static_cast_uint16_small (w : uint32) :
  (w < 2 ^ 16)%N → static_cast_uint16 w = w.
Proof. intros Hw. unfold static_cast_uint16. by apply N.mod_small. Qed.


(** The same conversion on the bits: the low sixteen bits are kept. *)
Lemma static_cast_uint16_land (w : uint32) :
  static_cast_uint16 w = N.land w 65535.
Proof.
  unfold static_cast_uint16.
  change 65535%N with (N.ones 16). by rewrite N.land_ones.
Qed.

Lemma vector_empty_true {A : Type} (v : list A) :
  vector_empty v = true ↔ v = [].
Proof. destruct v; simpl; split; congruence. Qed.

Lemma vector_empty_false {A : Type} (v : list A) :
  vector_empty v = false ↔ v ≠ [].
Proof. destruct v; simpl; split; congruence. Qed.

(** The loop invariant: what lies before position [i] in the destination
    is kept, and every later slot receives the narrowed source element.
    The subscripts never leave the two vectors. *)
Lemma narrow_loop_spec k i src dst :
  i + k = length src →
  length dst = length src →
  narrow_loop k i src dst
  = Some (take i dst ++ (static_cast_uint16 <$> drop i src)).
Proof.
  revert i dst. induction k as [|k IH]; intros i dst Hik Hlen; simpl.
  - rewrite drop_ge by lia. rewrite take_ge by lia. by rewrite app_nil_r.
  - destruct (lookup_lt_is_Some_2 src i) as [w Hw]; [lia|].
    destruct (lookup_lt_is_Some_2 dst i) as [d Hd]; [lia|].
    rewrite Hw, Hd. simpl.
    rewrite IH by (rewrite ?length_insert; lia).
    f_equal.
    rewrite (take_S_r _ _ (static_cast_uint16 w))
      by (apply list_lookup_insert_eq; lia).
    rewrite take_insert_ge by lia.
    rewrite (drop_S src w i Hw). rewrite fmap_cons.
    by rewrite <- app_assoc.
Qed.

(** The block of lines 64-68 stores the narrowed copy of [Indices32],
    whatever the cache held before. *)
Lemma fill_cache_spec m :
  fill_cache m = Some (set_mIndices16 (static_cast_uint16 <$> Indices32 m) m).
Proof.
  unfold fill_cache, vector_resize. cbv zeta.
  rewrite narrow_loop_spec by (rewrite ?length_resize; lia).
  by rewrite take_0, drop_0.
Qed.

Lemma GetIndices16_first m :
  mIndices16 m = [] →
  GetIndices16 m
  = Some (static_cast_uint16 <$> Indices32 m,
          set_mIndices16 (static_cast_uint16 <$> Indices32 m) m).
Proof.
  intros He. unfold GetIndices16. rewrite He. simpl.
  by rewrite fill_cache_spec.
Qed.

Lemma GetIndices16_cached m :
  mIndices16 m ≠ [] → GetIndices16 m = Some (mIndices16 m, m).
Proof.
  intros Hne. unfold GetIndices16.
  apply vector_empty_false in Hne. by rewrite Hne.
Qed.

(** Whatever the state of the cache, the call returns the cache of the
    object it leaves behind, and touches no other member. *)
Lemma GetIndices16_inv m r m' :
  GetIndices16 m = Some (r, m') →
  r = mIndices16 m' ∧ Vertices m' = Vertices m ∧ Indices32 m' = Indices32 m.
Proof.
  destruct (decide (mIndices16 m = [])) as [He|Hne].
  - rewrite GetIndices16_first by done. intros [= <- <-]. done.
  - rewrite GetIndices16_cached by done. intros [= <- <-]. done.
Qed.

Lemma GetIndices16_total m : is_Some (GetIndices16 m).
Proof.
  destruct (decide (mIndices16 m = [])) as [He|Hne].
  - rewrite GetIndices16_first by done. eauto.
  - rewrite GetIndices16_cached by done. eauto.
Qed.

(** The call at work: 65536 wraps to 0 and 70000 to 4464. *)
Example GetIndices16_wide_mesh :
  fst <$> GetIndices16 wide_mesh = Some [0; 4464; 7]%N.
Proof. vm_compute. reflexivity. Qed.

Example GetIndices16_quad_mesh :
  GetIndices16 quad_mesh
  = Some ([0; 1; 2; 0; 2; 3]%N, set_mIndices16 [0; 1; 2; 0; 2; 3]%N quad_mesh).
Proof. vm_compute. reflexivity. Qed.

(** An empty first result is not remembered: after an assignment to
    [Indices32] the next call narrows again. *)
Example run_empty_then_assigned :
  fst <$> run [CallGetIndices16; AssignIndices32 [9]%N; CallGetIndices16]
              empty_mesh
  = Some [mkCallEvent true []; mkCallEvent true [9]%N].
Proof. vm_compute. reflexivity. Qed.

(** After a call, a further call changes nothing and returns the same. *)
Lemma GetIndices16_fixpoint m r m' :
  GetIndices16 m = Some (r, m') → GetIndices16 m' = Some (r, m').
Proof.
  destruct (decide (mIndices16 m = [])) as [He|Hne].
  - rewrite GetIndices16_first by done. intros [= <- <-].
    destruct (Indices32 m) as [|w l] eqn:Hl.
    + rewrite GetIndices16_first by done. simpl. rewrite Hl.
      destruct m; simpl in *; by subst.
    + by rewrite GetIndices16_cached.
  - rewrite GetIndices16_cached by done. intros [= <- <-].
    by apply GetIndices16_cached.
Qed.

(** C1.  On a mesh whose cache is empty, with at most 65536 vertices and
    with every wide index a valid vertex offset, [GetIndices16] returns a
    sequence whose every narrow index is, as a number, the corresponding
    wide index: the returned sequence is [Indices32] itself. *)
Theorem GetIndices16_exact m :
  mIndices16 m = [] →
  (vertex_count m ≤ 65536)%N →
  Forall (λ w, (w < vertex_count m)%N) (Indices32 m) →
  ∃ r m',
    GetIndices16 m = Some (r, m') ∧
    length r = length (Indices32 m) ∧
    ∀ i w, Indices32 m !! i = Some w → r !! i = Some w.
Proof.
  intros He Hn Hvalid.
  assert (Hid : static_cast_uint16 <$> Indices32 m = Indices32 m).
  { induction Hvalid as [|w l Hw _ IH]; [done|].
    rewrite fmap_cons, IH. f_equal.
    apply static_cast_uint16_small. lia. }
  eexists _, _. split; [by apply GetIndices16_first|].
  rewrite Hid. auto.
Qed.

Lemma GetIndices16_exact_witness :
  ∃ r m',
    GetIndices16 quad_mesh = Some (r, m') ∧
    length r = length (Indices32 quad_mesh) ∧
    ∀ i w, Indices32 quad_mesh !! i = Some w → r !! i = Some w.
Proof.
  apply (GetIndices16_exact quad_mesh).
  - reflexivity.
  - vm_compute. discriminate.
  - apply (bool_decide_unpack _). vm_compute. exact I.
Defined.

(** C2.  On a mesh whose cache is empty, [GetIndices16] returns a sequence
    as long as [Indices32] whose i-th element is [Indices32[i]] modulo
    [2^16]. *)
Theorem GetIndices16_truncates m :
  mIndices16 m = [] →
  ∃ r m',
    GetIndices16 m = Some (r, m') ∧
    length r = length (Indices32 m) ∧
    ∀ i w, Indices32 m !! i = Some w → r !! i = Some (w `mod` 2 ^ 16)%N.
Proof.
  intros He. eexists _, _. split; [by apply GetIndices16_first|]. split.
  - by rewrite length_fmap.
  - intros i w Hw. rewrite list_lookup_fmap, Hw. done.
Qed.

Lemma GetIndices16_truncates_witness :
  ∃ r m',
    GetIndices16 wide_mesh = Some (r, m') ∧
    length r = length (Indices32 wide_mesh) ∧
    ∀ i w, Indices32 wide_mesh !! i = Some w →
           r !! i = Some (w `mod` 2 ^ 16)%N.
Proof. apply (GetIndices16_truncates wide_mesh). reflexivity. Defined.

(** C3.  Two calls of [GetIndices16] in a row, with nothing done to the
    mesh in between, return the same sequence (and the second call leaves
    the object as the first left it). *)
Theorem GetIndices16_twice_same m :
  ∃ r m1,
    GetIndices16 m = Some (r, m1) ∧ GetIndices16 m1 = Some (r, m1).
Proof.
  destruct (GetIndices16_total m) as [[r m1] H1].
  exists r, m1. split; [done|]. by eapply GetIndices16_fixpoint.
Qed.

(** *** Repeated calls *)

Lemma compute_count_cons (ev : CallEvent) (evs : list CallEvent) :
  compute_count (ev :: evs)
  = (if computed ev then 1 else 0) + compute_count evs.
Proof.
  unfold compute_count. rewrite filter_cons.
  destruct (computed ev); by case_decide.
Qed.

Lemma compute_count_replicate (n : nat) (b : bool) r :
  compute_count (replicate n (mkCallEvent b r)) = if b then n else 0.
Proof.
  induction n as [|n IH]; [by destruct b|].
  rewrite replicate_S, compute_count_cons, IH. by destruct b.
Qed.

(** From the object a call leaves behind, any number of further calls
    repeat that call's event and leave the same object. *)
Lemma run_calls_fixpoint m1 r (n : nat) :
  GetIndices16 m1 = Some (r, m1) →
  run (replicate n CallGetIndices16) m1
  = Some (replicate n (mkCallEvent (vector_empty (mIndices16 m1)) r), m1).
Proof.
  intros Hfix. induction n as [|n IH]; simpl; [done|].
  rewrite Hfix. simpl. rewrite IH. done.
Qed.

(** C4, as the code has it.  Over any number of calls in a row: no call
    changes [Vertices] or [Indices32]; the object after every later call
    is the object the first call left, and every call returns the same
    sequence; and the narrowing block runs in at most one of the calls,
    unless [Indices32] and the cache are both empty.  In that one case the
    guard of line 63 holds at every call: the block is entered each time,
    its loop has nothing to narrow, the call returns the empty sequence
    and the mesh stays as it was. *)
Theorem GetIndices16_calls_frame m (n : nat) :
  ∃ r m1 evs,
    GetIndices16 m = Some (r, m1) ∧
    run (replicate (S n) CallGetIndices16) m = Some (evs, m1) ∧
    length evs = S n ∧
    Vertices m1 = Vertices m ∧
    Indices32 m1 = Indices32 m ∧
    Forall (λ ev, returned ev = r) evs ∧
    (¬ (Indices32 m = [] ∧ mIndices16 m = []) → compute_count evs ≤ 1) ∧
    (Indices32 m = [] → mIndices16 m = [] →
       m1 = m ∧ r = [] ∧ compute_count evs = S n).
Proof.
  destruct (GetIndices16_total m) as [[r m1] H1].
  pose proof (GetIndices16_fixpoint _ _ _ H1) as Hfix.
  destruct (GetIndices16_inv _ _ _ H1) as (Hr & HV & HI).
  exists r, m1. eexists. split; [done|]. split.
  { simpl. rewrite H1. simpl.
    rewrite (run_calls_fixpoint m1 r n Hfix). simpl. reflexivity. }
  split; [simpl; by rewrite length_replicate|].
  do 2 (split; [done|]). split.
  { constructor; [done|]. apply Forall_replicate. done. }
  split.
  - intros Hne.
    assert (Hc : vector_empty (mIndices16 m1) = false).
    { apply vector_empty_false. rewrite <- Hr.
      destruct (decide (mIndices16 m = [])) as [He|Hc].
      - rewrite GetIndices16_first in H1 by done.
        injection H1 as <- _.
        destruct (Indices32 m); [by destruct Hne|done].
      - rewrite GetIndices16_cached in H1 by done.
        by injection H1 as <- _. }
    rewrite Hc, compute_count_cons, compute_count_replicate. simpl.
    destruct (vector_empty (mIndices16 m)); lia.
  - intros HI0 He.
    rewrite GetIndices16_first in H1 by done. rewrite HI0 in H1.
    injection H1 as <- <-.
    assert (Hm : set_mIndices16 (static_cast_uint16 <$> []) m = m).
    { destruct m; simpl in *; by subst. }
    simpl in Hm. rewrite Hm. split; [done|]. split; [done|].
    by rewrite He, compute_count_cons, compute_count_replicate.
Qed.

(** Against "computed at most once" for every mesh (C4 as worded): on a
    default-constructed mesh both of two calls in a row find the cache
    empty and run the block. *)
Lemma compute_twice_on_empty_mesh :
  ∃ evs m',
    run [CallGetIndices16; CallGetIndices16] empty_mesh = Some (evs, m') ∧
    compute_count evs = 2 ∧
    ¬ compute_count evs ≤ 1.
Proof.
  eexists _, _. split; [reflexivity|]. split; [reflexivity|].
  vm_compute. lia.
Qed.

Lemma GetIndices16_calls_frame_witness :
  ∃ r m1 evs,
    GetIndices16 (set_mIndices16 [7; 8; 9]%N empty_mesh) = Some (r, m1) ∧
    run (replicate 3 CallGetIndices16) (set_mIndices16 [7; 8; 9]%N empty_mesh)
    = Some (evs, m1) ∧
    compute_count evs ≤ 1.
Proof.
  destruct (GetIndices16_calls_frame (set_mIndices16 [7; 8; 9]%N empty_mesh) 2)
    as (r & m1 & evs & H1 & Hrun & _ & _ & _ & _ & Hcount & _).
  exists r, m1, evs. split; [exact H1|]. split; [exact Hrun|].
  apply Hcount. intros [_ Hc]. discriminate Hc.
Defined.



(** *** Usages that assign the public members between calls *)

(** Once the cache holds something, no step of a usage empties or
    replaces it: every call returns it without running the block. *)
Lemma run_cached ops m :
  mIndices16 m ≠ [] →
  ∃ evs m2,
    run ops m = Some (evs, m2) ∧
    length evs = call_count ops ∧
    Forall (λ ev, returned ev = mIndices16 m ∧ computed ev = false) evs ∧
    mIndices16 m2 = mIndices16 m.
Proof.
  revert m. induction ops as [|op ops IH]; intros m Hne.
  - exists [], m. by repeat split.
  - destruct op as [vs|l|]; simpl.
    + destruct (IH (set_Vertices vs m) Hne) as (evs & m2 & Hrun & Hlen & Hall & Hc).
      exists evs, m2. unfold call_count in *.
      rewrite filter_cons_False by done. by repeat split.
    + destruct (IH (set_Indices32 l m) Hne) as (evs & m2 & Hrun & Hlen & Hall & Hc).
      exists evs, m2. unfold call_count in *.
      rewrite filter_cons_False by done. by repeat split.
    + rewrite GetIndices16_cached by done. simpl.
      destruct (IH m Hne) as (evs & m2 & Hrun & Hlen & Hall & Hc).
      rewrite Hrun. simpl. eexists _, m2. split; [done|].
      unfold call_count in *. rewrite filter_cons_True by done.
      split; [simpl; by rewrite Hlen|]. split; [|done].
      constructor; [|done]. simpl. split; [done|].
      by apply vector_empty_false.
Qed.

(** C6.  After a call of [GetIndices16] has returned a non-empty sequence,
    every later call returns that sequence, without narrowing again,
    whatever has been assigned to [Indices32] (or [Vertices]) in between:
    the cache is never invalidated. *)
Theorem GetIndices16_cache_kept m r m1 ops :
  GetIndices16 m = Some (r, m1) →
  r ≠ [] →
  ∃ evs m2,
    run ops m1 = Some (evs, m2) ∧
    length evs = call_count ops ∧
    Forall (λ ev, returned ev = r ∧ computed ev = false) evs ∧
    mIndices16 m2 = r.
Proof.
  intros H1 Hne.
  destruct (GetIndices16_inv _ _ _ H1) as (-> & _ & _).
  by apply run_cached.
Qed.

Lemma GetIndices16_cache_kept_witness :
  ∃ evs m2,
    run [AssignIndices32 [70000; 3; 3]%N; CallGetIndices16;
         AssignVertices []; AssignIndices32 []; CallGetIndices16]
        (set_mIndices16 [0; 1; 2; 0; 2; 3]%N quad_mesh) = Some (evs, m2) ∧
    length evs = 2 ∧
    Forall (λ ev, returned ev = [0; 1; 2; 0; 2; 3]%N ∧ computed ev = false)
           evs ∧
    mIndices16 m2 = [0; 1; 2; 0; 2; 3]%N.
Proof.
  apply (GetIndices16_cache_kept quad_mesh); [reflexivity | discriminate].
Defined.

(** C10.  The first call on a mesh does not look at [Vertices]: two meshes
    with the same [Indices32] and empty caches get the same sequence, which
    is the element-wise narrowing of [Indices32]. *)
Theorem GetIndices16_ignores_Vertices (ma mb : MeshData) :
  Indices32 ma = Indices32 mb →
  mIndices16 ma = [] →
  mIndices16 mb = [] →
  ∃ r ma' mb',
    GetIndices16 ma = Some (r, ma') ∧
    GetIndices16 mb = Some (r, mb') ∧
    r = static_cast_uint16 <$> Indices32 ma.
Proof.
  intros HI Ha Hb. eexists _, _, _.
  split; [by apply GetIndices16_first|].
  split; [|reflexivity].
  rewrite HI. by apply GetIndices16_first.
Qed.

Lemma GetIndices16_ignores_Vertices_witness :
  ∃ r ma' mb',
    GetIndices16 quad_mesh = Some (r, ma') ∧
    GetIndices16 (set_Vertices [] quad_mesh) = Some (r, mb') ∧
    r = static_cast_uint16 <$> Indices32 quad_mesh.
Proof.
  apply (GetIndices16_ignores_Vertices quad_mesh (set_Vertices [] quad_mesh));
    reflexivity.
Defined.

End NarrowIndexCache.

(** * Further properties of [GetIndices16] *)

Section NarrowingFacts.

Implicit Types (m : MeshData) (r : list uint16) (l : list uint32).

(** Narrowing a whole list changes nothing exactly when every element
    fits sixteen bits. *)
Lemma fmap_static_cast_uint16_id l :
  static_cast_uint16 <$> l = l ↔ Forall (λ w, (w < 2 ^ 16)%N) l.
Proof.
  induction l as [|w l IH]; [by split|].
  rewrite fmap_cons, List.Forall_cons_iff. split.
  - intros [= Hw Hl]. split; [|by apply IH].
    rewrite <- Hw. apply static_cast_uint16_range.
  - intros [Hw Hl]. f_equal; [by apply static_cast_uint16_small|by apply IH].
Qed.

(** X1.  On a mesh whose cache is empty, [GetIndices16] returns
    [Indices32] itself if and only if every wide index is below [2^16]:
    one index past the range is enough for the result to differ. *)
Theorem GetIndices16_lossless_iff m :
  mIndices16 m = [] →
  ∃ r m',
    GetIndices16 m = Some (r, m') ∧
    (r = Indices32 m ↔ Forall (λ w, (w < 2 ^ 16)%N) (Indices32 m)).
Proof.
  intros He. eexists _, _. split; [by apply GetIndices16_first|].
  apply fmap_static_cast_uint16_id.
Qed.

Lemma GetIndices16_lossless_iff_witness :
  ∃ r m',
    GetIndices16 wide_mesh = Some (r, m') ∧
    (r = Indices32 wide_mesh ↔
     Forall (λ w, (w < 2 ^ 16)%N) (Indices32 wide_mesh)).
Proof. apply (GetIndices16_lossless_iff wide_mesh). reflexivity. Defined.

(** X2.  The narrow indices of a valid mesh form a valid index list over
    the same vertices, whatever the number of vertices: the list still
    describes whole triangles and every narrow index addresses a vertex.
    Past 65536 vertices a wrapped index is wrong, but never out of range. *)
Theorem GetIndices16_valid_narrow m :
  valid_mesh m →
  mIndices16 m = [] →
  ∃ r m',
    GetIndices16 m = Some (r, m') ∧
    valid_mesh (set_Indices32 r m').
Proof.
  intros [Hlen Hidx] He. eexists _, _. split; [by apply GetIndices16_first|].
  split; cbn [set_Indices32 set_mIndices16 Indices32].
  - by rewrite length_fmap.
  - apply Forall_fmap. eapply List.Forall_impl; [|exact Hidx].
    intros w Hw. unfold vertex_count in *. simpl.
    pose proof (N.Div0.mod_le w (2 ^ 16)) as Hle.
    unfold static_cast_uint16. lia.
Qed.

Lemma GetIndices16_valid_narrow_witness :
  ∃ r m',
    GetIndices16 wide_mesh = Some (r, m') ∧
    valid_mesh (set_Indices32 r m').
Proof.
  apply (GetIndices16_valid_narrow wide_mesh).
  - apply (bool_decide_unpack _). vm_compute. exact I.
  - reflexivity.
Defined.

(** X3.  A call that returns the empty sequence has changed nothing, and
    it has not frozen the cache: once [Indices32] is assigned afterwards,
    the next call narrows the assigned list. *)
Theorem GetIndices16_empty_result_noop m m' :
  GetIndices16 m = Some ([], m') →
  m' = m ∧
  ∀ l, ∃ m2,
    GetIndices16 (set_Indices32 l m') = Some (static_cast_uint16 <$> l, m2).
Proof.
  intros H1.
  assert (Hm : m' = m ∧ mIndices16 m = []).
  { destruct (decide (mIndices16 m = [])) as [He|Hne].
    - rewrite GetIndices16_first in H1 by done.
      injection H1 as Hr <-. rewrite Hr. split; [|done].
      destruct m; simpl in *; by subst.
    - rewrite GetIndices16_cached in H1 by done.
      injection H1 as Hr _. done. }
  destruct Hm as [-> He]. split; [done|].
  intros l. eexists. by rewrite GetIndices16_first.
Qed.

Lemma GetIndices16_empty_result_noop_witness :
  empty_mesh = empty_mesh ∧
  ∀ l, ∃ m2,
    GetIndices16 (set_Indices32 l empty_mesh)
    = Some (static_cast_uint16 <$> l, m2).
Proof.
  apply (GetIndices16_empty_result_noop empty_mesh empty_mesh). reflexivity.
Defined.

(** X7.  Which positions share a narrow index.  With an empty cache, two
    positions whose wide indices both fit sixteen bits get the same narrow
    index only if the wide indices are the same; two wide indices that
    differ by a multiple of 65536 always get the same narrow index. *)
Theorem GetIndices16_merges m :
  mIndices16 m = [] →
  ∃ r m',
    GetIndices16 m = Some (r, m') ∧
    ∀ (i j : nat) (a b : uint32),
      Indices32 m !! i = Some a →
      Indices32 m !! j = Some b →
      ((a < 2 ^ 16)%N → (b < 2 ^ 16)%N → (r !! i = r !! j ↔ a = b)) ∧
      (∀ k : N, b = (a + 65536 * k)%N → r !! i = r !! j).
Proof.
  intros He. eexists _, _. split; [by apply GetIndices16_first|].
  intros i j a b Ha Hb. rewrite !list_lookup_fmap, Ha, Hb. simpl. split.
  - intros Hla Hlb. rewrite !static_cast_uint16_small by done.
    split; congruence.
  - intros k ->. f_equal. unfold static_cast_uint16.
    change (2 ^ 16)%N with 65536%N.
    by rewrite N.mul_comm, N.Div0.mod_add.
Qed.

Lemma GetIndices16_merges_witness :
  ∃ r m',
    GetIndices16 wide_mesh = Some (r, m') ∧
    ∀ (i j : nat) (a b : uint32),
      Indices32 wide_mesh !! i = Some a →
      Indices32 wide_mesh !! j = Some b →
      ((a < 2 ^ 16)%N → (b < 2 ^ 16)%N → (r !! i = r !! j ↔ a = b)) ∧
      (∀ k : N, b = (a + 65536 * k)%N → r !! i = r !! j).
Proof. apply (GetIndices16_merges wide_mesh). reflexivity. Defined.

End NarrowingFacts.

(** * Usages: calls interleaved with assignments *)

(** A usage with its calls left out. *)
Definition assignments_only (ops : list MeshOp) : list MeshOp :=
  filter (λ op, is_call op = false) ops.

(** A call that ran the narrowing block and came back with indices. *)
Definition productive (ev : CallEvent) : bool :=
  computed ev && negb (vector_empty (returned ev)).

Definition productive_count (evs : list CallEvent) : nat :=
  length (filter (λ ev, productive ev = true) evs).

(** A sample usage: a call on the fresh mesh, the index list assigned, two
    calls, the index list replaced, one more call. *)
Definition sample_usage : list MeshOp :=
  [CallGetIndices16; AssignIndices32 [70000; 1; 2]%N; CallGetIndices16;
   CallGetIndices16; AssignIndices32 [5; 5; 5; 5]%N; CallGetIndices16].

Section Usages.

Implicit Types (m : MeshData) (ops : list MeshOp) (evs : list CallEvent).

Example run_sample_usage :
  fst <$> run sample_usage empty_mesh
  = Some [mkCallEvent true []; mkCallEvent true [4464; 1; 2]%N;
          mkCallEvent false [4464; 1; 2]%N; mkCallEvent false [4464; 1; 2]%N].
Proof. vm_compute. reflexivity. Qed.

Lemma call_count_cons_call ops :
  call_count (CallGetIndices16 :: ops) = S (call_count ops).
Proof. unfold call_count. by rewrite filter_cons_True. Qed.

Lemma call_count_cons_assign (op : MeshOp) ops :
  is_call op = false → call_count (op :: ops) = call_count ops.
Proof.
  intros Hop. unfold call_count. rewrite filter_cons_False; [done|].
  by rewrite Hop.
Qed.

Lemma run_transparent_gen ops (ma mb : MeshData) :
  Vertices ma = Vertices mb →
  Indices32 ma = Indices32 mb →
  ∃ evs m2 m3,
    run ops ma = Some (evs, m2) ∧
    run (assignments_only ops) mb = Some ([], m3) ∧
    Vertices m2 = Vertices m3 ∧
    Indices32 m2 = Indices32 m3 ∧
    mIndices16 m3 = mIndices16 mb ∧
    length evs = call_count ops.
Proof.
  revert ma mb. induction ops as [|op ops IH]; intros ma mb HV HI.
  - exists [], ma, mb. by repeat split.
  - destruct op as [vs|l|]; unfold assignments_only.
    + rewrite filter_cons_True by done. fold (assignments_only ops).
      rewrite call_count_cons_assign by done. simpl.
      destruct (IH (set_Vertices vs ma) (set_Vertices vs mb))
        as (evs & m2 & m3 & ?); [done|done|].
      by exists evs, m2, m3.
    + rewrite filter_cons_True by done. fold (assignments_only ops).
      rewrite call_count_cons_assign by done. simpl.
      destruct (IH (set_Indices32 l ma) (set_Indices32 l mb))
        as (evs & m2 & m3 & ?); [done|done|].
      by exists evs, m2, m3.
    + rewrite filter_cons_False by done. fold (assignments_only ops).
      rewrite call_count_cons_call. simpl.
      destruct (GetIndices16_total ma) as [[r m1] H1]. rewrite H1. simpl.
      destruct (GetIndices16_inv _ _ _ H1) as (_ & HV1 & HI1).
      destruct (IH m1 mb) as (evs & m2 & m3 & Hrun & Hrun' & ? & ? & ? & Hlen);
        [congruence|congruence|].
      rewrite Hrun. simpl. eexists _, m2, m3.
      split; [done|]. split; [done|]. do 3 (split; [done|]).
      simpl. by rewrite Hlen.
Qed.

(** X4.  Calls are transparent to the public members.  Any usage runs to
    the end, with one event per call, and leaves [Vertices] and
    [Indices32] exactly as the same usage with every call of
    [GetIndices16] left out; the latter leaves the cache as it found it. *)
Theorem run_calls_transparent ops m :
  ∃ evs m2 m3,
    run ops m = Some (evs, m2) ∧
    run (assignments_only ops) m = Some ([], m3) ∧
    Vertices m2 = Vertices m3 ∧
    Indices32 m2 = Indices32 m3 ∧
    mIndices16 m3 = mIndices16 m ∧
    length evs = call_count ops.
Proof. by apply run_transparent_gen. Qed.

Lemma productive_count_cons (ev : CallEvent) evs :
  productive_count (ev :: evs)
  = (if productive ev then 1 else 0) + productive_count evs.
Proof.
  unfold productive_count. rewrite filter_cons.
  destruct (productive ev); by case_decide.
Qed.

Lemma productive_count_idle evs :
  Forall (λ ev, computed ev = false) evs → productive_count evs = 0.
Proof.
  induction 1 as [|ev evs Hev _ IH]; [done|].
  rewrite productive_count_cons, IH. unfold productive. by rewrite Hev.
Qed.

(** X5.  Over any usage from any mesh, assignments included, at most one
    call narrows to a non-empty sequence; every call after that one runs
    no narrowing and returns that same sequence. *)
Theorem run_one_productive ops m :
  ∃ evs m2,
    run ops m = Some (evs, m2) ∧
    productive_count evs ≤ 1 ∧
    ∀ (i j : nat) (evi evj : CallEvent),
      evs !! i = Some evi → productive evi = true →
      i < j → evs !! j = Some evj →
      computed evj = false ∧ returned evj = returned evi.
Proof.
  revert m. induction ops as [|op ops IH]; intros m.
  - exists [], m. split; [done|]. split; [unfold productive_count; simpl; lia|].
    intros i j evi evj Hi. by rewrite lookup_nil in Hi.
  - destruct op as [vs|l|]; simpl; [apply IH|apply IH|].
    destruct (decide (mIndices16 m = [])) as [He|Hne].
    + rewrite GetIndices16_first by done. simpl. rewrite He. simpl.
      set (r := static_cast_uint16 <$> Indices32 m).
      destruct (decide (r = [])) as [Hr|Hr].
      * destruct (IH (set_mIndices16 r m)) as (evs & m2 & Hrun & Hcnt & Hlater).
        rewrite Hrun. simpl. eexists _, m2. split; [done|]. split.
        -- rewrite productive_count_cons. unfold productive. simpl.
           rewrite Hr. simpl. lia.
        -- intros [|i] [|j] evi evj Hi Hp Hij Hj; simpl in *; try lia.
           ++ injection Hi as <-. unfold productive in Hp. simpl in Hp.
              by rewrite Hr in Hp.
           ++ eapply Hlater; [exact Hi|exact Hp| |exact Hj]. lia.
      * destruct (run_cached ops (set_mIndices16 r m))
          as (evs & m2 & Hrun & _ & Hall & _); [done|].
        rewrite Hrun. simpl. eexists _, m2. split; [done|].
        assert (Hidle : Forall (λ ev, computed ev = false) evs).
        { eapply List.Forall_impl; [|exact Hall]. by intros ev [_ ?]. }
        split.
        -- rewrite productive_count_cons, (productive_count_idle _ Hidle).
           destruct (productive _); lia.
        -- intros [|i] [|j] evi evj Hi Hp Hij Hj; simpl in *; try lia.
           ++ injection Hi as <-. simpl.
              by destruct (Forall_lookup_1 _ _ _ _ Hall Hj).
           ++ pose proof (Forall_lookup_1 _ _ _ _ Hidle Hi) as Hc.
              unfold productive in Hp. simpl in Hc. by rewrite Hc in Hp.
    + destruct (run_cached (CallGetIndices16 :: ops) m Hne)
        as (evs & m2 & Hrun & _ & Hall & _).
      simpl in Hrun. rewrite Hrun. exists evs, m2. split; [done|].
      assert (Hidle : Forall (λ ev, computed ev = false) evs).
      { eapply List.Forall_impl; [|exact Hall]. by intros ev [_ ?]. }
      split; [rewrite (productive_count_idle _ Hidle); lia|].
      intros i j evi evj Hi Hp _ _.
      pose proof (Forall_lookup_1 _ _ _ _ Hidle Hi) as Hc.
      unfold productive in Hp. simpl in Hc. by rewrite Hc in Hp.
Qed.

End Usages.

(** * Properties of the subdivision *)

Section SubdivisionProperties.

Variable MidPoint : Vertex → Vertex → Vertex.

Implicit Types (m input out : MeshData) (tri : Triangle) (b : N).

Lemma length_refined_vertices tri : length (refined_vertices MidPoint tri) = 6.
Proof. by destruct tri as [[v0 v1] v2]. Qed.

Lemma length_refined_indices b : length (refined_indices b) = 12.
Proof. done. Qed.

(** In a valid mesh every triangle below the count resolves. *)
Lemma triangle_at_valid m (t : nat) :
  valid_mesh m → t < triangle_count m → is_Some (triangle_at m t).
Proof.
  intros [_ Hidx] Ht. unfold triangle_count in Ht.
  assert (Hlen : 3 * t + 2 < length (Indices32 m)).
  { pose proof (Nat.Div0.mul_div_le (length (Indices32 m)) 3). lia. }
  assert (Hres : ∀ i, i < length (Indices32 m) →
            ∃ w v, Indices32 m !! i = Some w ∧ Vertices m !! N.to_nat w = Some v).
  { intros i Hi. destruct (lookup_lt_is_Some_2 (Indices32 m) i Hi) as [w Hw].
    pose proof (Forall_lookup_1 _ _ _ _ Hidx Hw) as Hlt. simpl in Hlt.
    unfold vertex_count in Hlt.
    destruct (lookup_lt_is_Some_2 (Vertices m) (N.to_nat w)) as [v Hv]; [lia|].
    eauto. }
  unfold triangle_at.
  destruct (Hres (3 * t)) as (i0 & v0 & -> & Hv0); [lia|].
  destruct (Hres (3 * t + 1)) as (i1 & v1 & -> & Hv1); [lia|].
  destruct (Hres (3 * t + 2)) as (i2 & v2 & -> & Hv2); [lia|].
  simpl. rewrite Hv0, Hv1, Hv2. simpl. eauto.
Qed.

(** The index blocks of [S k] triangles from offset [b]: the first block,
    then those of [k] triangles from offset [b + 6]. *)
Lemma refined_index_blocks_S b (k : nat) :
  mjoin ((λ j : nat, refined_indices (b + 6 * N.of_nat j)) <$> seq 0 (S k))
  = refined_indices b ++
    mjoin ((λ j : nat, refined_indices (b + 6 + 6 * N.of_nat j)) <$> seq 0 k).
Proof.
  rewrite <- cons_seq, fmap_cons, <- fmap_S_seq, <- list_fmap_compose.
  change (mjoin (?x :: ?l)) with (x ++ mjoin l).
  rewrite N.mul_0_r, N.add_0_r. f_equal. f_equal.
  apply list_fmap_ext. intros _ j _. simpl. f_equal. lia.
Qed.

(** The loop invariant of the pass: the [k] triangles from [t] on are
    appended in order, six vertices and twelve indices each, the indices
    of the [j]-th of them offset by six times [j] past the vertices that
    were there. *)
Lemma subdivide_loop_spec (k t : nat) input out (tris : list Triangle) :
  mapM (triangle_at input) (seq t k) = Some tris →
  subdivide_loop MidPoint k t input out
  = Some {| Vertices := Vertices out ++ mjoin (refined_vertices MidPoint <$> tris);
            Indices32 := Indices32 out ++
              mjoin ((λ j : nat, refined_indices (vertex_count out + 6 * N.of_nat j)) <$> seq 0 k);
            mIndices16 := mIndices16 out |}.
Proof.
  revert t out tris. induction k as [|k IH]; intros t out tris Htris.
  - simpl in Htris. injection Htris as <-. simpl.
    rewrite !app_nil_r. by destruct out.
  - simpl in Htris.
    destruct (triangle_at input t) as [tri|] eqn:Ht; [|done].
    destruct (mapM (triangle_at input) (seq (S t) k)) as [trs|] eqn:Hrest;
      [|done].
    injection Htris as <-.
    cbn [subdivide_loop]. unfold subdivide_triangle. rewrite Ht.
    cbn [mbind option_bind].
    rewrite (IH _ _ trs Hrest). cbn [Vertices Indices32 mIndices16].
    rewrite refined_index_blocks_S, fmap_cons.
    change (mjoin (?x :: ?l)) with (x ++ mjoin l).
    rewrite <- !app_assoc. do 3 f_equal.
    f_equal. f_equal. apply list_fmap_ext. intros _ j _. f_equal.
    unfold vertex_count. cbn [Vertices].
    rewrite length_app, length_refined_vertices. lia.
Qed.

Lemma length_join_blocks {A B : Type} (f : A → list B) (n : nat) (l : list A) :
  (∀ x, length (f x) = n) → length (mjoin (f <$> l)) = n * length l.
Proof.
  intros Hf. induction l as [|x l IH]; [simpl; lia|].
  rewrite fmap_cons. change (mjoin (?x :: ?l)) with (x ++ mjoin l).
  rewrite length_app, Hf, IH. simpl. lia.
Qed.

Lemma triangle_count_exact m (T : nat) :
  length (Indices32 m) = 3 * T → triangle_count m = T.
Proof.
  intros Hlen. unfold triangle_count. rewrite Hlen, Nat.mul_comm.
  by apply Nat.div_mul.
Qed.

(** The refined mesh, in closed form. *)
Definition refined_mesh (c : list uint16) (tris : list Triangle) : MeshData :=
  {| Vertices := mjoin (refined_vertices MidPoint <$> tris);
     Indices32 :=
       mjoin ((λ j : nat, refined_indices (6 * N.of_nat j)) <$> seq 0 (length tris));
     mIndices16 := c |}.

Lemma Subdivide_refined m (T : nat) :
  valid_mesh m →
  length (Indices32 m) = 3 * T →
  ∃ tris,
    mapM (triangle_at m) (seq 0 T) = Some tris ∧
    length tris = T ∧
    Subdivide MidPoint m = Some (refined_mesh (mIndices16 m) tris).
Proof.
  intros Hvalid Hlen.
  pose proof (triangle_count_exact m T Hlen) as HT.
  destruct (mapM (triangle_at m) (seq 0 T)) as [tris|] eqn:Htris.
  - exists tris. split; [done|].
    pose proof (length_mapM _ _ _ Htris) as HlenT. rewrite length_seq in HlenT.
    split; [done|].
    unfold Subdivide. rewrite HT.
    rewrite (subdivide_loop_spec T 0 m _ tris Htris).
    unfold refined_mesh. cbn [Vertices Indices32 mIndices16 app].
    rewrite <- HlenT. do 3 f_equal.
  - exfalso. assert (His : is_Some (mapM (triangle_at m) (seq 0 T))).
    { apply mapM_is_Some. apply Forall_forall. intros t Ht.
      apply in_seq in Ht. apply triangle_at_valid; [done|lia]. }
    rewrite Htris in His. by destruct His.
Qed.

Lemma refined_mesh_index c tris (t k : nat) :
  t < length tris → k < 12 →
  Indices32 (refined_mesh c tris) !! (12 * t + k)
  = refined_indices (6 * N.of_nat t) !! k.
Proof.
  intros Ht Hk. unfold refined_mesh. cbn [Indices32].
  destruct (lookup_lt_is_Some_2 (refined_indices (6 * N.of_nat t)) k)
    as [w Hw]; [by rewrite length_refined_indices|].
  rewrite Hw. replace (12 * t + k) with (t * 12 + k) by lia.
  apply join_lookup_Some_same_length'; [|done|].
  - apply Forall_fmap, Forall_forall. intros j _. done.
  - eexists. split; [|exact Hw].
    rewrite list_lookup_fmap, lookup_seq_lt by done. done.
Qed.

Lemma refined_mesh_vertex c tris (t : nat) tri (off : N) :
  tris !! t = Some tri → (off < 6)%N →
  Vertices (refined_mesh c tris) !! N.to_nat (6 * N.of_nat t + off)
  = refined_vertices MidPoint tri !! N.to_nat off.
Proof.
  intros Ht Hoff. unfold refined_mesh. cbn [Vertices].
  destruct (lookup_lt_is_Some_2 (refined_vertices MidPoint tri) (N.to_nat off))
    as [v Hv]; [rewrite length_refined_vertices; lia|].
  rewrite Hv.
  replace (N.to_nat (6 * N.of_nat t + off)) with (t * 6 + N.to_nat off) by lia.
  apply join_lookup_Some_same_length'; [| lia |].
  - apply Forall_fmap, Forall_forall. intros x _.
    apply length_refined_vertices.
  - eexists. split; [|exact Hv]. by rewrite list_lookup_fmap, Ht.
Qed.

Lemma length_refined_mesh_Vertices c tris :
  length (Vertices (refined_mesh c tris)) = 6 * length tris.
Proof.
  unfold refined_mesh. cbn [Vertices].
  apply length_join_blocks, length_refined_vertices.
Qed.

Lemma length_refined_mesh_Indices32 c tris :
  length (Indices32 (refined_mesh c tris)) = 3 * (4 * length tris).
Proof.
  unfold refined_mesh. cbn [Indices32].
  rewrite (length_join_blocks _ 12) by done. rewrite length_seq. lia.
Qed.

(** A subdivision pass establishes the invariants of a mesh. *)
Lemma refined_mesh_valid c tris : valid_mesh (refined_mesh c tris).
Proof.
  split.
  - rewrite length_refined_mesh_Indices32.
    rewrite (Nat.mul_comm 3). apply Nat.Div0.mod_mul.
  - unfold vertex_count. rewrite length_refined_mesh_Vertices.
    unfold refined_mesh. cbn [Indices32].
    apply Forall_join, Forall_fmap, Forall_forall. intros j Hj.
    apply in_seq in Hj. unfold refined_indices.
    repeat (apply Forall_cons_2; [lia|]). apply Forall_nil_2.
Qed.

Lemma triangle_at_resolve m (t : nat) (i0 i1 i2 : uint32) (v0 v1 v2 : Vertex) :
  Indices32 m !! (3 * t) = Some i0 →
  Indices32 m !! (3 * t + 1) = Some i1 →
  Indices32 m !! (3 * t + 2) = Some i2 →
  Vertices m !! N.to_nat i0 = Some v0 →
  Vertices m !! N.to_nat i1 = Some v1 →
  Vertices m !! N.to_nat i2 = Some v2 →
  triangle_at m t = Some (v0, v1, v2).
Proof.
  intros H0 H1 H2 Hv0 Hv1 Hv2. unfold triangle_at.
  rewrite H0, H1, H2. simpl. rewrite Hv0, Hv1, Hv2. done.
Qed.

(** The triangles of the refined mesh: the [t]-th input triangle
    (v0,v1,v2) has become (v0,m0,m2), (m0,v1,m1), (m2,m1,v2), (m0,m1,m2),
    at places [4t .. 4t+3]. *)
Lemma refined_mesh_triangles c tris (t : nat) (v0 v1 v2 : Vertex) :
  tris !! t = Some (v0, v1, v2) →
  let m0 := MidPoint v0 v1 in
  let m1 := MidPoint v1 v2 in
  let m2 := MidPoint v2 v0 in
  triangle_at (refined_mesh c tris) (4 * t) = Some (v0, m0, m2) ∧
  triangle_at (refined_mesh c tris) (4 * t + 1) = Some (m0, v1, m1) ∧
  triangle_at (refined_mesh c tris) (4 * t + 2) = Some (m2, m1, v2) ∧
  triangle_at (refined_mesh c tris) (4 * t + 3) = Some (m0, m1, m2).
Proof.
  intros Ht m0 m1 m2.
  pose proof (lookup_lt_Some _ _ _ Ht) as Hlt.
  set (b := (6 * N.of_nat t)%N).
  assert (Hidx : ∀ k j : nat, k < 12 → j = 12 * t + k →
            Indices32 (refined_mesh c tris) !! j = refined_indices b !! k).
  { intros k j Hk ->. by apply refined_mesh_index. }
  assert (Hvtx : ∀ off : N, (off < 6)%N →
            Vertices (refined_mesh c tris) !! N.to_nat (b + off)
            = refined_vertices MidPoint (v0, v1, v2) !! N.to_nat off).
  { intros off Hoff. by apply refined_mesh_vertex. }
  repeat split.
  - apply (triangle_at_resolve _ _ (b + 0) (b + 3) (b + 5))%N;
      first [ rewrite (Hidx 0) by lia; simpl; by rewrite N.add_0_r
            | rewrite (Hidx 1) by lia; done
            | rewrite (Hidx 2) by lia; done
            | rewrite Hvtx by lia; done ].
  - apply (triangle_at_resolve _ _ (b + 3) (b + 1) (b + 4))%N;
      first [ rewrite (Hidx 3) by lia; done
            | rewrite (Hidx 4) by lia; done
            | rewrite (Hidx 5) by lia; done
            | rewrite Hvtx by lia; done ].
  - apply (triangle_at_resolve _ _ (b + 5) (b + 4) (b + 2))%N;
      first [ rewrite (Hidx 6) by lia; done
            | rewrite (Hidx 7) by lia; done
            | rewrite (Hidx 8) by lia; done
            | rewrite Hvtx by lia; done ].
  - apply (triangle_at_resolve _ _ (b + 3) (b + 4) (b + 5))%N;
      first [ rewrite (Hidx 9) by lia; done
            | rewrite (Hidx 10) by lia; done
            | rewrite (Hidx 11) by lia; done
            | rewrite Hvtx by lia; done ].
Qed.

(** The triangle list of the input, as the pass reads it, agrees with
    [triangle_at]. *)
Lemma mapM_triangle_at_lookup m (T t : nat) tris tri :
  mapM (triangle_at m) (seq 0 T) = Some tris →
  length (Indices32 m) = 3 * T →
  triangle_at m t = Some tri →
  tris !! t = Some tri.
Proof.
  intros Htris Hlen Ht.
  assert (HtT : t < T).
  { unfold triangle_at in Ht.
    destruct (Indices32 m !! (3 * t)) as [i0|] eqn:H0; [|done].
    apply lookup_lt_Some in H0. lia. }
  apply mapM_Some_1 in Htris.
  destruct (Forall2_lookup_l _ _ _ t t Htris) as (tri' & Htri' & Hat).
  { by apply lookup_seq_lt. }
  congruence.
Qed.

(** C8.  On a valid mesh of [T] triangles one pass of [Subdivide] gives a
    valid mesh of exactly [4T] triangles and a second pass one of [16T].
    Every input triangle (v0,v1,v2) resolves, and the refined mesh holds in
    its place, in this order, (v0,m0,m2), (m0,v1,m1), (m2,m1,v2) and
    (m0,m1,m2), with m0, m1, m2 the midpoints of the edges v0v1, v1v2 and
    v2v0.  The corners v0, v1, v2 are stored in the refined mesh as they
    were, so their positions are unchanged. *)
Theorem Subdivide_one_to_four m (T : nat) :
  valid_mesh m →
  length (Indices32 m) = 3 * T →
  ∃ m1 m2,
    Subdivide MidPoint m = Some m1 ∧
    valid_mesh m1 ∧
    length (Indices32 m1) = 3 * (4 * T) ∧
    triangle_count m1 = 4 * T ∧
    Subdivide MidPoint m1 = Some m2 ∧
    valid_mesh m2 ∧
    length (Indices32 m2) = 3 * (16 * T) ∧
    triangle_count m2 = 16 * T ∧
    (∀ t : nat, t < T → is_Some (triangle_at m t)) ∧
    (∀ (t : nat) (v0 v1 v2 : Vertex),
       triangle_at m t = Some (v0, v1, v2) →
       let m0 := MidPoint v0 v1 in
       let m1' := MidPoint v1 v2 in
       let m2' := MidPoint v2 v0 in
       (triangle_at m1 (4 * t) = Some (v0, m0, m2') ∧
        triangle_at m1 (4 * t + 1) = Some (m0, v1, m1') ∧
        triangle_at m1 (4 * t + 2) = Some (m2', m1', v2) ∧
        triangle_at m1 (4 * t + 3) = Some (m0, m1', m2')) ∧
       (Position <$> Vertices m1 !! (6 * t) = Some (Position v0) ∧
        Position <$> Vertices m1 !! (6 * t + 1) = Some (Position v1) ∧
        Position <$> Vertices m1 !! (6 * t + 2) = Some (Position v2))).
Proof.
  intros Hvalid Hlen.
  destruct (Subdivide_refined m T Hvalid Hlen) as (tris & Htris & HT & Hsub).
  set (m1 := refined_mesh (mIndices16 m) tris) in *.
  pose proof (refined_mesh_valid (mIndices16 m) tris) as Hvalid1.
  pose proof (length_refined_mesh_Indices32 (mIndices16 m) tris) as Hlen1.
  rewrite HT in Hlen1. fold m1 in Hvalid1, Hlen1.
  destruct (Subdivide_refined m1 (4 * T) Hvalid1 Hlen1)
    as (tris1 & _ & HT1 & Hsub1).
  set (m2 := refined_mesh (mIndices16 m1) tris1) in *.
  pose proof (length_refined_mesh_Indices32 (mIndices16 m1) tris1) as Hlen2.
  rewrite HT1 in Hlen2. fold m2 in Hlen2.
  replace (4 * (4 * T)) with (16 * T) in Hlen2 by lia.
  exists m1, m2.
  split; [done|]. split; [done|]. split; [done|].
  split; [by apply triangle_count_exact|].
  split; [done|]. split; [apply refined_mesh_valid|]. split; [done|].
  split; [by apply triangle_count_exact|]. split.
  - intros t Ht. apply triangle_at_valid; [done|].
    by rewrite (triangle_count_exact m T).
  - intros t v0 v1 v2 Hat m0 m1' m2'.
    pose proof (mapM_triangle_at_lookup m T t tris _ Htris Hlen Hat) as Hlk.
    split; [by apply refined_mesh_triangles|].
    pose proof (refined_mesh_vertex (mIndices16 m) tris t _ 0 Hlk) as Hp0.
    pose proof (refined_mesh_vertex (mIndices16 m) tris t _ 1 Hlk) as Hp1.
    pose proof (refined_mesh_vertex (mIndices16 m) tris t _ 2 Hlk) as Hp2.
    fold m1 in Hp0, Hp1, Hp2.
    replace (N.to_nat (6 * N.of_nat t + 0)) with (6 * t) in Hp0 by lia.
    replace (N.to_nat (6 * N.of_nat t + 1)) with (6 * t + 1) in Hp1 by lia.
    replace (N.to_nat (6 * N.of_nat t + 2)) with (6 * t + 2) in Hp2 by lia.
    rewrite Hp0, Hp1, Hp2 by lia. done.
Qed.

End SubdivisionProperties.

Example Subdivide_triangle_mesh :
  Indices32 <$> Subdivide (λ v0 _, v0) triangle_mesh
  = Some [0; 3; 5; 3; 1; 4; 5; 4; 2; 3; 4; 5]%N.
Proof. vm_compute. reflexivity. Qed.

(** The theorem at a mesh of one triangle; the midpoint function chosen
    here plays no part, the theorem holds for every one. *)
Lemma Subdivide_one_to_four_witness :
  ∃ m1 m2,
    Subdivide (λ v0 _, v0) triangle_mesh = Some m1 ∧
    triangle_count m1 = 4 ∧
    Subdivide (λ v0 _, v0) m1 = Some m2 ∧
    triangle_count m2 = 16.
Proof.
  destruct (Subdivide_one_to_four (λ v0 _, v0) triangle_mesh 1)
    as (m1 & m2 & H1 & _ & _ & Hc1 & H2 & _ & _ & Hc2 & _).
  - apply (bool_decide_unpack _). vm_compute. exact I.
  - reflexivity.
  - exists m1, m2. auto.
Defined.

(** * The midpoint of two vertices

    [MidPoint] is declared at line 150; its body is not in the header.  It
    is modelled here from the design description, on single-precision
    data: a C++ [float] is a [spec_float] of precision 24 and maximal
    exponent 128, and the arithmetic is the Standard Library's
    correctly rounded (to nearest, ties to even) addition, multiplication,
    division and square root at that format. *)

Definition f32_add : float → float → float := SFadd 24 128.
Definition f32_mul : float → float → float := SFmul 24 128.
Definition f32_div : float → float → float := SFdiv 24 128.
Definition f32_sqrt : float → float := SFsqrt 24 128.

Definition f32_two : float := S754_finite false 8388608 (-22).



(** Modelled from the spec: the midpoint of two numbers, [(a + b) / 2], as
    the design's testable property writes it. *)
Definition midpoint (a b : float) : float := f32_div (f32_add a b) f32_two.

(** Modelled from the spec: component-wise interpolation at t = 0.5. *)
Definition midpoint3 (a b : XMFLOAT3) : XMFLOAT3 :=
  {| f3x := midpoint (f3x a) (f3x b);
     f3y := midpoint (f3y a) (f3y b);
     f3z := midpoint (f3z a) (f3z b) |}.

Definition midpoint2 (a b : XMFLOAT2) : XMFLOAT2 :=
  {| f2x := midpoint (f2x a) (f2x b);
     f2y := midpoint (f2y a) (f2y b) |}.

(** The Euclidean length of a vector, as computed in single precision. *)
Definition length3 (a : XMFLOAT3) : float :=
  f32_sqrt (f32_add (f32_add (f32_mul (f3x a) (f3x a))
                             (f32_mul (f3y a) (f3y a)))
                    (f32_mul (f3z a) (f3z a))).

(** Modelled from the spec: renormalisation, every component divided by
    the length of the vector.  The design does not say what a vector of
    length zero becomes; the division is left as it is. *)
Definition normalize3 (a : XMFLOAT3) : XMFLOAT3 :=
  let len := length3 a in
  {| f3x := f32_div (f3x a) len;
     f3y := f32_div (f3y a) len;
     f3z := f32_div (f3z a) len |}.

(** Modelled from the spec: the body of [GeometryGenerator::MidPoint] is
    missing from the sources (only its declaration at line 150 is there).
    Following the design: position, normal, tangent and texture
    coordinate are interpolated component-wise at t = 0.5, then the
    interpolated normal and tangent are renormalised. *)
Definition MidPoint (v0 v1 : Vertex) : Vertex :=
  {| Position := midpoint3 (Position v0) (Position v1);
     Normal := normalize3 (midpoint3 (Normal v0) (Normal v1));
     TangentU := normalize3 (midpoint3 (TangentU v0) (TangentU v1));
     TexC := midpoint2 (TexC v0) (TexC v1) |}.




(** ** Sample vertices *)






(** * Properties of the midpoint *)

Section Binary32.

Local Open Scope Z_scope.

Implicit Types (s : bool) (m : positive) (e : Z) (x : float).












End Binary32.

Section MidPointProperties.

Implicit Types (a : XMFLOAT3) (t : XMFLOAT2) (v : Vertex).








End MidPointProperties.

End GeometryGenerator.
